(** * Voice input controller: a shallow embedding and its properties

    Source: [app/javascript/controllers/voice_input_controller.js], a Stimulus
    controller that drives the browser's speech recognition engine and
    splices the recognised text into a text input.

    The controller's methods mutate [this], the two target elements and the
    console, and a property read on [null] raises a [TypeError]; they are
    embedded in a state-and-exception monad over one record holding all of
    that. *)

From Stdlib Require Import String Ascii List Arith Bool Lia Permutation.
Import ListNotations.
Local Open Scope string_scope.

(* ================================================================== *)
(** * JavaScript strings *)
(* ================================================================== *)

(** A JavaScript string is a sequence of code units; [String.length] and
    [++] are [.length] and [+] on it. *)
Module JsString.

(** [s.substring(indexStart, indexEnd)]: both indices are clamped to the
    length, and swapped when the first is the larger. *)
Definition substring (s : string) (indexStart indexEnd : nat) : string :=
  let len := String.length s in
  let a := Nat.min indexStart len in
  let b := Nat.min indexEnd len in
  String.substring (Nat.min a b) (Nat.max a b - Nat.min a b) s.

(** [s.substring(indexStart)]: the second index defaults to the length. *)
Definition substring_from (s : string) (indexStart : nat) : string :=
  substring s indexStart (String.length s).

(** The slices [s[0:n]] and [s[n:]] the specification speaks of, defined
    on their own by recursion on the text. *)
Fixpoint take (n : nat) (s : string) : string :=
  match n, s with
  | S n', String c s' => String c (take n' s')
  | _, _ => EmptyString
  end.

Fixpoint drop (n : nat) (s : string) : string :=
  match n, s with
  | S n', String _ s' => drop n' s'
  | _, _ => s
  end.

(** [parts.join("")] for a list of fragments, in list order. *)
Definition join (parts : list string) : string :=
  fold_right String.append EmptyString parts.

End JsString.

(* ================================================================== *)
(** * Host objects *)
(* ================================================================== *)

(** ** The recognition engine *)

(** The two operations the controller invokes on its engine handle. *)
Inductive EngineCall : Type :=
| CallStart   (* speechRecognition.start() *)
| CallStop.   (* speechRecognition.stop()  *)

(** The arrow functions [setupSpeechRecognitionCallbacks] installs, one
    type per event attribute.  They close over [this] only, so a tag is
    enough to name each of them. *)
Inductive PlainListener : Type :=
| LogListener (message : string).      (* () => console.log(message) *)

Inductive ErrorListener : Type :=
| ForwardError.    (* (event) => this.handleSpeechRecognitionError(event) *)

Inductive ResultListener : Type :=
| ForwardResult.   (* (event) => this.handleSpeechRecognitionResult(event) *)

(** Modelled from the spec: the [SpeechRecognition] host object, which the
    repository uses and does not define.  Section 6 gives its contract:
    options continuous, interimResults and language, operations start() and
    stop(), and the four event callbacks.  [handle_id] is the identity of the
    object ([new] gives each a fresh one) and [calls] lists the operations
    invoked on it, oldest first. *)
Record SpeechRecognition : Type := mkSpeechRecognition {
  handle_id : nat;
  continuous : bool;
  interimResults : bool;
  lang : string;
  onstart : option PlainListener;
  onerror : option ErrorListener;
  onend : option PlainListener;
  onresult : option ResultListener;
  calls : list EngineCall
}.

(** ** Events *)

(** A [SpeechRecognitionAlternative]; only [transcript] is read. *)
Record Alternative : Type := mkAlternative {
  transcript : string
}.

(** A [SpeechRecognitionResult]: the [isFinal] flag and the n-best
    alternatives, of which the engine always provides the first. *)
Record RecognitionResult : Type := mkResult {
  isFinal : bool;
  item0 : Alternative;            (* results[i][0] *)
  alternatives : list Alternative (* results[i][1], results[i][2], ... *)
}.

(** The event given to [onresult]. *)
Record ResultEvent : Type := mkResultEvent {
  resultIndex : nat;
  results : list RecognitionResult
}.

(** The event given to [onerror]; [error] is the engine's error code. *)
Record ErrorEvent : Type := mkErrorEvent {
  error : string
}.

Inductive EngineEvent : Type :=
| EvStart
| EvError (event : ErrorEvent)
| EvEnd
| EvResult (event : ResultEvent).

(** ** The page *)

(** Modelled from the spec: the text input element, "a text-input-like
    element exposing get/set text, get/set selection range" (section 6).
    A setter stores the value it is given. *)
Record Input : Type := mkInput {
  value : string;
  selectionStart : nat;
  selectionEnd : nat
}.

(** Modelled from the spec: the button, "a button-like element exposing
    get/set visible label" (section 6). *)
Record Button : Type := mkButton {
  textContent : string
}.

(** [window]: which of the two constructors the browser defines. *)
Record Window : Type := mkWindow {
  has_SpeechRecognition : bool;
  has_webkitSpeechRecognition : bool
}.

Inductive ConsoleLevel : Type := LevelLog | LevelError.

(** One call of [console.log] or [console.error] with its arguments. *)
Record ConsoleEntry : Type := mkEntry {
  level : ConsoleLevel;
  arguments : list string
}.

(* ================================================================== *)
(** * The controller and its world *)
(* ================================================================== *)

(** Everything a method can read or write: the browser ([window], the
    number of engines constructed so far, the console), the controller's
    two fields and its two targets.  [speechRecognition] is [None] for
    [null]; [speaking] is the RecordingState, [true] for Recording.  Before
    [connect] has run the two fields are [undefined], which every test in
    the source reads like [null] and [false].  The page has both targets
    that [static targets] names, so [this.inputTarget] and
    [this.startButtonTarget] always give an element. *)
Record State : Type := mkState {
  window : Window;
  constructed : nat;
  console : list ConsoleEntry;
  speechRecognition : option SpeechRecognition;
  speaking : bool;
  inputTarget : Input;
  startButtonTarget : Button
}.

Definition Idle : bool := false.
Definition Recording : bool := true.

(** ** Field updates *)

Definition with_constructed (n : nat) (s : State) : State :=
  mkState (window s) n (console s) (speechRecognition s) (speaking s)
          (inputTarget s) (startButtonTarget s).

Definition with_console (c : list ConsoleEntry) (s : State) : State :=
  mkState (window s) (constructed s) c (speechRecognition s) (speaking s)
          (inputTarget s) (startButtonTarget s).

Definition with_speechRecognition (h : option SpeechRecognition) (s : State)
  : State :=
  mkState (window s) (constructed s) (console s) h (speaking s)
          (inputTarget s) (startButtonTarget s).

Definition with_speaking (b : bool) (s : State) : State :=
  mkState (window s) (constructed s) (console s) (speechRecognition s) b
          (inputTarget s) (startButtonTarget s).

Definition with_inputTarget (i : Input) (s : State) : State :=
  mkState (window s) (constructed s) (console s) (speechRecognition s)
          (speaking s) i (startButtonTarget s).

Definition with_startButtonTarget (b : Button) (s : State) : State :=
  mkState (window s) (constructed s) (console s) (speechRecognition s)
          (speaking s) (inputTarget s) b.

Definition with_calls (cs : list EngineCall) (h : SpeechRecognition)
  : SpeechRecognition :=
  mkSpeechRecognition (handle_id h) (continuous h) (interimResults h) (lang h)
    (onstart h) (onerror h) (onend h) (onresult h) cs.

(** ** The monad *)

Inductive JsError : Type :=
| TypeError (reading : string).
    (* "Cannot read properties of null (reading '...')" *)

(** How a method call ends: it returns, or an exception leaves it; either
    way the writes made so far stay. *)
Inductive Completion (A : Type) : Type :=
| Returns (result : A) (after : State)
| Throws (exn : JsError) (after : State).

Arguments Returns {A} result after.
Arguments Throws {A} exn after.

Definition M (A : Type) : Type := State -> Completion A.

Definition ret {A : Type} (a : A) : M A := fun s => Returns a s.

Definition bind {A B : Type} (m : M A) (k : A -> M B) : M B :=
  fun s =>
    match m s with
    | Returns a s' => k a s'
    | Throws e s' => Throws e s'
    end.

Definition throw {A : Type} (e : JsError) : M A := fun s => Throws e s.

Definition gets {A : Type} (f : State -> A) : M A := fun s => Returns (f s) s.

Definition modify (f : State -> State) : M unit := fun s => Returns tt (f s).

Declare Scope js_scope.
Delimit Scope js_scope with js.
Notation "x <- m ;; k" := (bind m (fun x => k))
  (at level 61, m at next level, right associativity) : js_scope.
Notation "m ;; k" := (bind m (fun _ => k))
  (at level 61, right associativity) : js_scope.
Local Open Scope js_scope.

(** The state a call leaves behind, and whether it returned. *)
Definition after_of {A : Type} (c : Completion A) : State :=
  match c with
  | Returns _ s => s
  | Throws _ s => s
  end.

Definition returnsb {A : Type} (c : Completion A) : bool :=
  match c with
  | Returns _ _ => true
  | Throws _ _ => false
  end.

(** ** Host operations *)

Definition console_log (args : list string) : M unit :=
  modify (fun s => with_console (console s ++ [mkEntry LevelLog args]) s).

Definition console_error (args : list string) : M unit :=
  modify (fun s => with_console (console s ++ [mkEntry LevelError args]) s).

(** [new SpeechRecognition()]: a fresh engine with the defaults of the
    Web Speech API and no listener. *)
Definition new_SpeechRecognition : M SpeechRecognition :=
  fun s =>
    Returns
      (mkSpeechRecognition (constructed s) false false "" None None None None [])
      (with_constructed (S (constructed s)) s).

(** [this.speechRecognition.<method>()]: reading the method from [null]
    throws; otherwise the engine takes the call. *)
Definition engine_invoke (call : EngineCall) (method : string) : M unit :=
  h <- gets speechRecognition ;;
  match h with
  | None => throw (TypeError method)
  | Some e =>
      modify (with_speechRecognition (Some (with_calls (calls e ++ [call]) e)))
  end.

Definition set_input_value (v : string) : M unit :=
  modify (fun s =>
    let i := inputTarget s in
    with_inputTarget (mkInput v (selectionStart i) (selectionEnd i)) s).

Definition set_input_selectionStart (n : nat) : M unit :=
  modify (fun s =>
    let i := inputTarget s in
    with_inputTarget (mkInput (value i) n (selectionEnd i)) s).

Definition set_input_selectionEnd (n : nat) : M unit :=
  modify (fun s =>
    let i := inputTarget s in
    with_inputTarget (mkInput (value i) (selectionStart i) n) s).

Definition input_setSelectionRange (a b : nat) : M unit :=
  modify (fun s =>
    let i := inputTarget s in
    with_inputTarget (mkInput (value i) a b) s).

Definition set_button_textContent (label : string) : M unit :=
  modify (with_startButtonTarget (mkButton label)).

(* ================================================================== *)
(** * The controller's methods *)
(* ================================================================== *)

Module Controller.

(** [setupSpeechRecognitionProperties(speechRecognition)] *)
Definition setupSpeechRecognitionProperties (h : SpeechRecognition)
  : SpeechRecognition :=
  let h := mkSpeechRecognition (handle_id h) true (interimResults h) (lang h)
             (onstart h) (onerror h) (onend h) (onresult h) (calls h) in
  let h := mkSpeechRecognition (handle_id h) (continuous h) true (lang h)
             (onstart h) (onerror h) (onend h) (onresult h) (calls h) in
  mkSpeechRecognition (handle_id h) (continuous h) (interimResults h) "en-US"
    (onstart h) (onerror h) (onend h) (onresult h) (calls h).

(** [setupSpeechRecognitionCallbacks(speechRecognition)] *)
Definition setupSpeechRecognitionCallbacks (h : SpeechRecognition)
  : SpeechRecognition :=
  mkSpeechRecognition (handle_id h) (continuous h) (interimResults h) (lang h)
    (Some (LogListener "Recording started..."))
    (Some ForwardError)
    (Some (LogListener "Recording stopped..."))
    (Some ForwardResult)
    (calls h).

(** [getSpeechRecognition()] *)
Definition getSpeechRecognition : M (option SpeechRecognition) :=
  w <- gets window ;;
  if negb (has_SpeechRecognition w || has_webkitSpeechRecognition w) then
    console_error ["Speech recognition not supported in this browser"] ;;
    ret None
  else
    h <- new_SpeechRecognition ;;
    let h := setupSpeechRecognitionProperties h in
    let h := setupSpeechRecognitionCallbacks h in
    ret (Some h).

(** [connect()] *)
Definition connect : M unit :=
  console_log ["VoiceInputController connected"] ;;
  h <- getSpeechRecognition ;;
  modify (with_speechRecognition h) ;;
  modify (with_speaking false).

(** [stopRecording()] *)
Definition stopRecording : M unit :=
  engine_invoke CallStop "stop" ;;
  modify (with_speaking false) ;;
  console_log ["Stop recording"].

(** [startRecording()] *)
Definition startRecording : M unit :=
  engine_invoke CallStart "start" ;;
  modify (with_speaking true) ;;
  console_log ["Start recording"].

(** [record()], the button's click action. *)
Definition record : M unit :=
  h <- gets speechRecognition ;;
  match h with
  | None => console_error ["Speech recognition is not available"]
  | Some _ =>
      sp <- gets speaking ;;
      if sp then
        stopRecording ;;
        set_button_textContent "Start Voice Input"
      else
        startRecording ;;
        set_button_textContent "Stop Voice Input"
  end.

(** [handleSpeechRecognitionError(event)] *)
Definition handleSpeechRecognitionError (event : ErrorEvent) : M unit :=
  console_error ["Speech recognition error:"; error event] ;;
  stopRecording.

(** The [for] loop of [extractTranscripts]: [i] is the loop variable and
    the two accumulators are [final_transcript] and [interim_transcript].
    [fuel] bounds the number of iterations still allowed. *)
Fixpoint extract_loop (fuel : nat) (rs : list RecognitionResult) (i : nat)
    (final_transcript interim_transcript : string) : string * string :=
  match fuel with
  | O => (final_transcript, interim_transcript)
  | S fuel' =>
      if (i <? List.length rs)%nat then
        match nth_error rs i with
        | Some r =>
            if isFinal r then
              extract_loop fuel' rs (S i)
                (final_transcript ++ transcript (item0 r)) interim_transcript
            else
              extract_loop fuel' rs (S i)
                final_transcript (interim_transcript ++ transcript (item0 r))
        | None => (final_transcript, interim_transcript)
        end
      else (final_transcript, interim_transcript)
  end.

(** What [extractTranscripts] returns. *)
Record Transcripts : Type := mkTranscripts {
  finalTranscript : string;
  interimTranscript : string
}.

(** [extractTranscripts(event)].  The loop runs at most
    [results.length] times, which is the fuel given. *)
Definition extractTranscripts (event : ResultEvent) : Transcripts :=
  let (final_transcript, interim_transcript) :=
    extract_loop (List.length (results event)) (results event)
                 (resultIndex event) "" "" in
  mkTranscripts final_transcript interim_transcript.

(** [updateInputValue(finalTranscript, interimTranscript)] *)
Definition updateInputValue (finalTranscript interimTranscript : string)
  : M unit :=
  input <- gets inputTarget ;;
  let selectionStart := selectionStart input in
  let selectionEnd := selectionEnd input in
  let currentValue := value input in
  let beforeSelection := JsString.substring currentValue 0 selectionStart in
  let afterSelection := JsString.substring_from currentValue selectionEnd in
  let updatedValue := beforeSelection ++ finalTranscript ++ afterSelection in
  set_input_value updatedValue ;;
  set_input_selectionEnd (selectionStart + String.length finalTranscript) ;;
  set_input_selectionStart (selectionStart + String.length finalTranscript) ;;
  let updatedSelectionStart :=
    selectionStart + String.length finalTranscript in
  let updatedSelectionEnd :=
    updatedSelectionStart + String.length interimTranscript in
  input_setSelectionRange updatedSelectionStart updatedSelectionEnd.

(** [handleSpeechRecognitionResult(event)] *)
Definition handleSpeechRecognitionResult (event : ResultEvent) : M unit :=
  let t := extractTranscripts event in
  updateInputValue (finalTranscript t) (interimTranscript t).

(** ** Listeners and event delivery *)

Definition call_plain (l : PlainListener) : M unit :=
  match l with
  | LogListener message => console_log [message]
  end.

Definition call_error (l : ErrorListener) (event : ErrorEvent) : M unit :=
  match l with
  | ForwardError => handleSpeechRecognitionError event
  end.

Definition call_result (l : ResultListener) (event : ResultEvent) : M unit :=
  match l with
  | ForwardResult => handleSpeechRecognitionResult event
  end.

(** The engine [h] fires an event: the listener on the matching attribute
    runs, if there is one. *)
Definition fire (h : SpeechRecognition) (ev : EngineEvent) : M unit :=
  match ev with
  | EvStart =>
      match onstart h with Some l => call_plain l | None => ret tt end
  | EvError event =>
      match onerror h with Some l => call_error l event | None => ret tt end
  | EvEnd =>
      match onend h with Some l => call_plain l | None => ret tt end
  | EvResult event =>
      match onresult h with Some l => call_result l event | None => ret tt end
  end.

(** ** Runs *)

(** What can happen to a connected controller, one task of the event loop
    at a time: a click on the button, a direct call of a method, an event
    fired by the controller's engine, or the user editing the input. *)
Inductive Action : Type :=
| Click
| DoStartRecording
| DoStopRecording
| DoHandleError (event : ErrorEvent)
| DoHandleResult (event : ResultEvent)
| DoUpdateInputValue (finalTranscript interimTranscript : string)
| EngineFires (ev : EngineEvent)
| UserEdits (i : Input).

Definition perform (a : Action) : M unit :=
  match a with
  | Click => record
  | DoStartRecording => startRecording
  | DoStopRecording => stopRecording
  | DoHandleError event => handleSpeechRecognitionError event
  | DoHandleResult event => handleSpeechRecognitionResult event
  | DoUpdateInputValue f i => updateInputValue f i
  | EngineFires ev =>
      h <- gets speechRecognition ;;
      match h with
      | Some e => fire e ev
      | None => ret tt
      end
  | UserEdits i => modify (with_inputTarget i)
  end.

(** An exception that leaves a task ends that task only; the next one
    starts from the state it left. *)
Definition step (s : State) (a : Action) : State := after_of (perform a s).

Definition run (actions : list Action) (s : State) : State :=
  fold_left step actions s.

(** ** Notions used in the statements *)

(** The console entry of [console.log(message)]. *)
Definition log_entry (message : string) : ConsoleEntry :=
  mkEntry LevelLog [message].

(** The engine [h] after one more call. *)
Definition called (call : EngineCall) (h : SpeechRecognition)
  : SpeechRecognition :=
  with_calls (calls h ++ [call]) h.

(** What of an engine handle no call changes: its identity, options and
    listeners. *)
Definition engine_object (h : SpeechRecognition) : SpeechRecognition :=
  with_calls [] h.

(** Whether the browser offers a recognition constructor. *)
Definition available (s : State) : bool :=
  has_SpeechRecognition (window s) || has_webkitSpeechRecognition (window s).

(** The engine [connect] is expected to build in a browser where [n]
    engines were constructed before. *)
Definition configured (n : nat) : SpeechRecognition :=
  mkSpeechRecognition n true true "en-US"
    (Some (LogListener "Recording started..."))
    (Some ForwardError)
    (Some (LogListener "Recording stopped..."))
    (Some ForwardResult)
    [].

(** What every task is expected to preserve: the browser, the number of
    engines constructed, and the engine object the controller holds; and,
    as long as the handle is null, the RecordingState. *)
Definition preserved (s s' : State) : Prop :=
  window s' = window s /\
  constructed s' = constructed s /\
  option_map engine_object (speechRecognition s')
    = option_map engine_object (speechRecognition s) /\
  (speechRecognition s = None -> speaking s' = speaking s).

(** With a null handle the controller is not Recording. *)
Definition handle_or_idle (s : State) : Prop :=
  speechRecognition s = None -> speaking s = false.

(** The label the button shows for a RecordingState. *)
Definition label_of (sp : bool) : string :=
  if sp then "Stop Voice Input" else "Start Voice Input".

End Controller.

(* ================================================================== *)
(** * The specification's own words *)
(* ================================================================== *)

Module Spec.

(** The top transcript alternative of a slot. *)
Definition top_transcript (r : RecognitionResult) : string :=
  transcript (item0 r).

(** The slots of an event from its first changed index to the end. *)
Definition changed_slots (e : ResultEvent) : list RecognitionResult :=
  skipn (resultIndex e) (results e).

(** finalText: the top transcripts of the slots marked final, in slot
    order; interimText: those of the other slots. *)
Definition finalText (e : ResultEvent) : string :=
  JsString.join (map top_transcript (filter isFinal (changed_slots e))).

Definition interimText (e : ResultEvent) : string :=
  JsString.join
    (map top_transcript
         (filter (fun r => negb (isFinal r)) (changed_slots e))).

(** updatedText = text[0:start] + finalText + text[end:] *)
Definition updatedText (text : string) (start end_ : nat) (finalText : string)
  : string :=
  JsString.take start text ++ finalText ++ JsString.drop end_ text.

End Spec.

(* ================================================================== *)
(** * Concrete pages and events *)
(* ================================================================== *)

Module Examples.

Import Controller.

(** A page before the controller connects. *)
Definition page (w : Window) (i : Input) (label : string) : State :=
  mkState w 0 [] None false i (mkButton label).

Definition chrome : Window := mkWindow false true.
Definition no_speech_api : Window := mkWindow false false.

Definition hello_world : Input := mkInput "hello world" 5 5.

(** Connected, in a browser with the capability. *)
Definition connected : State :=
  after_of (connect (page chrome hello_world "Start Voice Input")).

(** Connected, in a browser without it: the handle is [null]. *)
Definition unavailable : State :=
  after_of (connect (page no_speech_api hello_world "Start Voice Input")).

(** Recording, after one click. *)
Definition recording : State := run [Click] connected.

Definition no_speech : ErrorEvent := mkErrorEvent "no-speech".

(** After the engine reported an error during a recording. *)
Definition after_error : State :=
  run [Click; EngineFires (EvError no_speech)] connected.

Definition slot (final : bool) (text : string) : RecognitionResult :=
  mkResult final (mkAlternative text) [].

(** An event with nothing new: the index is past the last slot. *)
Definition stale_event : ResultEvent :=
  mkResultEvent 2 [slot true "hello"; slot true " world"].

(** Connected on a page whose markup labels the button "Record". *)
Definition custom_label : State :=
  after_of (connect (page chrome hello_world "Record")).

(** The word "world" selected in the input. *)
Definition world_selected : State :=
  run [UserEdits (mkInput "hello world" 6 11)] connected.

End Examples.

(* ================================================================== *)
(** * The controller in use *)
(* ================================================================== *)

Module Usage.

Import Controller.

(** The tasks the page as wired can start: the button's click action, the
    events of the controller's own engine, and the user's edits.  The
    other actions are direct calls of a method from outside. *)
Definition wired (a : Action) : bool :=
  match a with
  | Click | EngineFires _ | UserEdits _ => true
  | _ => false
  end.

(** The calls the held engine has received, oldest first. *)
Definition engine_calls (s : State) : list EngineCall :=
  match speechRecognition s with
  | Some h => calls h
  | None => []
  end.

Definition is_start (c : EngineCall) : bool :=
  match c with
  | CallStart => true
  | CallStop => false
  end.

(** The engine was last told to start. *)
Definition last_is_start (cs : list EngineCall) : bool :=
  is_start (last cs CallStop).

(** No [start()] directly follows another [start()]. *)
Fixpoint no_double_start (cs : list EngineCall) : bool :=
  match cs with
  | [] => true
  | c :: rest =>
      match c, rest with
      | CallStart, CallStart :: _ => false
      | _, _ => no_double_start rest
      end
  end.

(** The flag agrees with the engine, as far as the controller's own calls
    tell: it is set exactly when the last call was [start()], and the
    engine was never told to start twice in a row. *)
Definition start_stop_discipline (s : State) : Prop :=
  speaking s = last_is_start (engine_calls s) /\
  no_double_start (engine_calls s) = true.

(** The life of one controller instance: Stimulus runs [connect] each time
    the controller's element enters the page, and tasks happen in between. *)
Inductive Lifecycle : Type :=
| Connects
| Does (a : Action).

Definition live_step (s : State) (e : Lifecycle) : State :=
  match e with
  | Connects => after_of (connect s)
  | Does a => step s a
  end.

Definition live (es : list Lifecycle) (s : State) : State :=
  fold_left live_step es s.

(** How many times a life runs [connect]. *)
Fixpoint connects (es : list Lifecycle) : nat :=
  match es with
  | [] => 0
  | Connects :: es' => S (connects es')
  | Does _ :: es' => connects es'
  end.

(** The controller holds the engine constructed last, if the browser
    constructs engines at all, and no engine otherwise. *)
Definition holds_latest_engine (s : State) : Prop :=
  if available s then
    exists h, speechRecognition s = Some h /\ S (handle_id h) = constructed s
  else speechRecognition s = None.

(** The code units of a string, in order. *)
Definition code_units (s : string) : list ascii := list_ascii_of_string s.

(** The number of code units in the top transcripts of some slots. *)
Definition transcripts_length (rs : list RecognitionResult) : nat :=
  list_sum (map (fun r => String.length (Spec.top_transcript r)) rs).

(** The line [record] writes when there is no engine. *)
Definition not_available : ConsoleEntry :=
  mkEntry LevelError ["Speech recognition is not available"].

(** The line [getSpeechRecognition] writes when the browser has no
    recognition constructor. *)
Definition not_supported : ConsoleEntry :=
  mkEntry LevelError ["Speech recognition not supported in this browser"].

(** A session on the page: a recording the engine ends on its own, the
    click that then only stops, a second recording that fails, and the
    start of a third. *)
Definition session : list Action :=
  [Click; EngineFires EvEnd; Click; Click;
   EngineFires (EvError Examples.no_speech); Click].

End Usage.

(* ================================================================== *)
(** * Strings: slices, lengths, concatenation *)
(* ================================================================== *)

Section StringFacts.

Import JsString.

Lemma append_empty_r (s : string) : s ++ "" = s.
Proof. induction s as [|c s IH]; simpl; [reflexivity | now rewrite IH]. Qed.

Lemma append_assoc (a b c : string) : (a ++ b) ++ c = a ++ b ++ c.
Proof. induction a as [|x a IH]; simpl; [reflexivity | now rewrite IH]. Qed.

Lemma length_append (a b : string) :
  String.length (a ++ b) = String.length a + String.length b.
Proof. induction a as [|x a IH]; simpl; [reflexivity | now rewrite IH]. Qed.

Lemma take_all (s : string) (n : nat) :
  String.length s <= n -> take n s = s.
Proof.
  revert n; induction s as [|c s IH]; intros [|n] H; simpl in *;
    try reflexivity; try lia.
  f_equal; apply IH; lia.
Qed.

Lemma take_min (s : string) (n : nat) :
  take (Nat.min n (String.length s)) s = take n s.
Proof.
  revert n; induction s as [|c s IH]; intros [|n]; simpl; try reflexivity.
  now rewrite IH.
Qed.

Lemma drop_min (s : string) (n : nat) :
  drop (Nat.min n (String.length s)) s = drop n s.
Proof.
  revert n; induction s as [|c s IH]; intros [|n]; simpl; try reflexivity.
  apply IH.
Qed.

Lemma length_take (s : string) (n : nat) :
  String.length (take n s) = Nat.min n (String.length s).
Proof.
  revert n; induction s as [|c s IH]; intros [|n]; simpl; try reflexivity.
  now rewrite IH.
Qed.

Lemma length_drop (s : string) (n : nat) :
  String.length (drop n s) = String.length s - n.
Proof.
  revert n; induction s as [|c s IH]; intros [|n]; simpl; try reflexivity.
  apply IH.
Qed.

(** The library's [substring n m] is a take after a drop. *)
Lemma substring_take_drop (s : string) (n m : nat) :
  String.substring n m s = take m (drop n s).
Proof.
  revert n m; induction s as [|c s IH]; intros [|n] [|m]; simpl;
    try reflexivity.
  - now rewrite IH.
  - apply IH.
  - apply IH.
Qed.

(** [s.substring(0, n)] is [s[0:n]]. *)
Lemma substring_0 (s : string) (n : nat) : substring s 0 n = take n s.
Proof.
  unfold substring. rewrite substring_take_drop.
  rewrite Nat.min_0_l, Nat.max_0_l, Nat.sub_0_r. simpl.
  apply take_min.
Qed.

(** [s.substring(n)] is [s[n:]]. *)
Lemma substring_from_drop (s : string) (n : nat) :
  substring_from s n = drop n s.
Proof.
  unfold substring_from, substring. rewrite substring_take_drop.
  rewrite Nat.min_id.
  assert (Ha : Nat.min (Nat.min n (String.length s)) (String.length s)
               = Nat.min n (String.length s)) by lia.
  rewrite Ha, drop_min.
  apply take_all. rewrite length_drop. lia.
Qed.

End StringFacts.

(* ================================================================== *)
(** * Transcript extraction *)
(* ================================================================== *)

Section Extraction.

Import Controller.

Lemma skipn_nth_error {A : Type} (l : list A) (i : nat) (x : A) :
  nth_error l i = Some x -> skipn i l = x :: skipn (S i) l.
Proof.
  revert i; induction l as [|y l IH]; intros [|i] H; simpl in *;
    try discriminate.
  - now inversion H.
  - now apply IH.
Qed.

(** The loop, started at [i] with accumulators [f] and [t], appends to [f]
    the top transcripts of the final slots from [i] on and to [t] those of
    the others, as soon as the fuel covers the slots left. *)
Lemma extract_loop_spec (fuel : nat) :
  forall (rs : list RecognitionResult) (i : nat) (f t : string),
    List.length rs - i <= fuel ->
    extract_loop fuel rs i f t =
      (f ++ JsString.join
              (map Spec.top_transcript (filter isFinal (skipn i rs))),
       t ++ JsString.join
              (map Spec.top_transcript
                   (filter (fun r => negb (isFinal r)) (skipn i rs)))).
Proof.
  induction fuel as [|fuel IH]; intros rs i f t Hfuel.
  - simpl. rewrite skipn_all2 by lia. simpl.
    now rewrite !append_empty_r.
  - simpl. destruct (Nat.ltb_spec i (List.length rs)) as [Hlt|Hge].
    + destruct (nth_error rs i) as [r|] eqn:Hnth.
      * rewrite (skipn_nth_error _ _ _ Hnth).
        simpl filter. destruct (isFinal r); simpl.
        -- rewrite IH by lia. now rewrite append_assoc.
        -- rewrite IH by lia. now rewrite append_assoc.
      * apply nth_error_None in Hnth. lia.
    + rewrite skipn_all2 by lia. simpl.
      now rewrite !append_empty_r.
Qed.

Lemma extractTranscripts_run (e : ResultEvent) :
  extractTranscripts e =
    mkTranscripts
      (JsString.join
         (map Spec.top_transcript
              (filter isFinal (skipn (resultIndex e) (results e)))))
      (JsString.join
         (map Spec.top_transcript
              (filter (fun r => negb (isFinal r))
                      (skipn (resultIndex e) (results e))))).
Proof.
  unfold extractTranscripts.
  rewrite extract_loop_spec by lia.
  reflexivity.
Qed.

(** C4. For every result event, [extractTranscripts] returns as
    finalTranscript the concatenation, in slot order from [resultIndex] to
    the end of [results], of the top transcript of every slot marked final,
    and as interimTranscript the concatenation, in the same order, of the
    top transcript of every slot not marked final. *)
Theorem extractTranscripts_partitions (e : ResultEvent) :
  extractTranscripts e = mkTranscripts (Spec.finalText e) (Spec.interimText e).
Proof.
  unfold Spec.finalText, Spec.interimText, Spec.changed_slots.
  apply extractTranscripts_run.
Qed.

(** Nothing is extracted from an event whose index is at or past the end. *)
Lemma extractTranscripts_stale (e : ResultEvent) :
  List.length (results e) <= resultIndex e ->
  extractTranscripts e = mkTranscripts "" "".
Proof.
  intros H. rewrite extractTranscripts_run.
  now rewrite skipn_all2 by lia.
Qed.

Lemma join_all_empty (l : list string) :
  Forall (fun x => x = "") l -> JsString.join l = "".
Proof. induction 1 as [|x l Hx _ IH]; simpl; [reflexivity | now subst]. Qed.

(** Nor from an event whose slots all carry the empty transcript. *)
Lemma extractTranscripts_silent (e : ResultEvent) :
  Forall (fun r => Spec.top_transcript r = "") (results e) ->
  extractTranscripts e = mkTranscripts "" "".
Proof.
  intros H. rewrite extractTranscripts_run.
  fold (Spec.changed_slots e).
  assert (Hsk : Forall (fun r => Spec.top_transcript r = "")
                       (Spec.changed_slots e)).
  { unfold Spec.changed_slots. rewrite Forall_forall in *.
    intros r Hin. apply H. revert Hin.
    generalize (resultIndex e) as n, (results e) as l.
    intros n l; revert n; induction l as [|y l IH]; intros [|n] Hin;
      simpl in *; try assumption.
    right. now apply (IH n). }
  assert (Hj : forall p, JsString.join
                 (map Spec.top_transcript (filter p (Spec.changed_slots e)))
               = "").
  { intros p. apply join_all_empty. rewrite Forall_forall in *.
    intros x Hx. apply in_map_iff in Hx as [r [<- Hr]].
    apply filter_In in Hr as [Hr _]. now apply Hsk. }
  now rewrite !Hj.
Qed.

End Extraction.

(* ================================================================== *)
(** * Splicing into the input *)
(* ================================================================== *)

Section Splice.

Import Controller.

(** What [updateInputValue] does in every state: it returns, and changes
    the input only. *)
Lemma updateInputValue_run (s : State) (finalText interimText : string) :
  updateInputValue finalText interimText s =
    Returns tt
      (with_inputTarget
         (mkInput
            (Spec.updatedText (value (inputTarget s))
               (selectionStart (inputTarget s)) (selectionEnd (inputTarget s))
               finalText)
            (selectionStart (inputTarget s) + String.length finalText)
            (selectionStart (inputTarget s) + String.length finalText
             + String.length interimText))
         s).
Proof.
  unfold updateInputValue, Spec.updatedText, bind, gets, set_input_value,
    set_input_selectionStart, set_input_selectionEnd,
    input_setSelectionRange, modify.
  destruct s as [w n c h sp [v a b] btn]; simpl.
  now rewrite substring_0, substring_from_drop.
Qed.

(** C2. For every input text and selection [start, end] with
    0 <= start <= end <= length of the text, and every finalText and
    interimText, [updateInputValue] sets the input's text to
    text[0:start] + finalText + text[end:] and the selection range to
    [start + len(finalText), start + len(finalText) + len(interimText)];
    it touches nothing else.  In particular "hello world" with selection
    [5,5] and finalText " there" becomes "hello there world" with the caret
    at offset 11. *)
Theorem updateInputValue_splices :
  (forall (s : State) (finalText interimText : string),
      selectionStart (inputTarget s) <= selectionEnd (inputTarget s) ->
      selectionEnd (inputTarget s) <= String.length (value (inputTarget s)) ->
      let text := value (inputTarget s) in
      let start := selectionStart (inputTarget s) in
      let end_ := selectionEnd (inputTarget s) in
      exists s',
        updateInputValue finalText interimText s = Returns tt s' /\
        value (inputTarget s')
          = JsString.take start text ++ finalText ++ JsString.drop end_ text /\
        selectionStart (inputTarget s') = start + String.length finalText /\
        selectionEnd (inputTarget s')
          = start + String.length finalText + String.length interimText /\
        String.length (value (inputTarget s')) + (end_ - start)
          = String.length text + String.length finalText /\
        s' = with_inputTarget (inputTarget s') s)
  /\
  (forall s : State,
      exists s',
        updateInputValue " there" ""
          (with_inputTarget (mkInput "hello world" 5 5) s) = Returns tt s' /\
        inputTarget s' = mkInput "hello there world" 11 11).
Proof.
  split.
  - intros s f i Hse Hel text start end_.
    eexists. split; [apply updateInputValue_run|].
    destruct s as [w n c h sp [v a b] btn]; simpl in *.
    repeat split; try reflexivity.
    unfold Spec.updatedText.
    rewrite !length_append, length_take, length_drop.
    subst text start end_. lia.
  - intros s. eexists. split; [apply updateInputValue_run|].
    reflexivity.
Qed.

(** The example of C2, obtained from the general statement. *)
Lemma updateInputValue_splices_witness :
  selectionStart (inputTarget Examples.connected)
    <= selectionEnd (inputTarget Examples.connected) /\
  selectionEnd (inputTarget Examples.connected)
    <= String.length (value (inputTarget Examples.connected)) /\
  exists s',
    updateInputValue " there" "" Examples.connected = Returns tt s' /\
    value (inputTarget s') = "hello there world" /\
    selectionStart (inputTarget s') = 11 /\
    selectionEnd (inputTarget s') = 11.
Proof.
  assert (H1 : selectionStart (inputTarget Examples.connected)
               <= selectionEnd (inputTarget Examples.connected))
    by (simpl; lia).
  assert (H2 : selectionEnd (inputTarget Examples.connected)
               <= String.length (value (inputTarget Examples.connected)))
    by (simpl; lia).
  split; [exact H1 | split; [exact H2 |]].
  destruct (proj1 updateInputValue_splices Examples.connected " there" ""
              H1 H2) as [s' [Hrun [Hv [Ha [Hb _]]]]].
  exists s'. repeat split; assumption.
Defined.

End Splice.

(* ================================================================== *)
(** * Result events that carry no text *)
(* ================================================================== *)

Section EmptyResults.

Import Controller.

(** C10. For every result event whose extracted finalTranscript and
    interimTranscript are both empty, handling the event still rewrites
    the input: a selection [start, end) with start < end has its text
    deleted and collapses to start, so the input is not left as it was. *)
Theorem empty_result_deletes_selection :
  forall (s : State) (e : ResultEvent),
    finalTranscript (extractTranscripts e) = "" ->
    interimTranscript (extractTranscripts e) = "" ->
    selectionStart (inputTarget s) < selectionEnd (inputTarget s) ->
    let text := value (inputTarget s) in
    let start := selectionStart (inputTarget s) in
    let end_ := selectionEnd (inputTarget s) in
    exists s',
      handleSpeechRecognitionResult e s = Returns tt s' /\
      value (inputTarget s') = JsString.take start text ++ JsString.drop end_ text /\
      selectionStart (inputTarget s') = start /\
      selectionEnd (inputTarget s') = start /\
      inputTarget s' <> inputTarget s /\
      String.length (value (inputTarget s'))
        = Nat.min start (String.length text) + (String.length text - end_).
Proof.
  intros s e Hf Hi Hlt text start end_.
  unfold handleSpeechRecognitionResult. rewrite Hf, Hi.
  eexists. split; [apply updateInputValue_run|].
  destruct s as [w n c h sp [v a b] btn]; simpl in *.
  subst text start end_. unfold Spec.updatedText. simpl.
  rewrite !Nat.add_0_r.
  repeat split; try reflexivity.
  - intros Heq. inversion Heq. lia.
  - now rewrite length_append, length_take, length_drop.
Qed.

(** The word "world" is selected and the engine delivers an event with
    nothing new: the word is deleted. *)
Lemma empty_result_deletes_selection_witness :
  finalTranscript (extractTranscripts Examples.stale_event) = "" /\
  interimTranscript (extractTranscripts Examples.stale_event) = "" /\
  selectionStart (inputTarget Examples.world_selected)
    < selectionEnd (inputTarget Examples.world_selected) /\
  exists s',
    handleSpeechRecognitionResult Examples.stale_event Examples.world_selected
      = Returns tt s' /\
    value (inputTarget s') = "hello " /\
    selectionStart (inputTarget s') = 6 /\
    selectionEnd (inputTarget s') = 6 /\
    inputTarget s' <> inputTarget Examples.world_selected.
Proof.
  assert (Hf : finalTranscript (extractTranscripts Examples.stale_event) = "")
    by reflexivity.
  assert (Hi : interimTranscript (extractTranscripts Examples.stale_event) = "")
    by reflexivity.
  assert (Hlt : selectionStart (inputTarget Examples.world_selected)
                < selectionEnd (inputTarget Examples.world_selected))
    by (simpl; lia).
  split; [exact Hf | split; [exact Hi | split; [exact Hlt |]]].
  destruct (empty_result_deletes_selection Examples.world_selected
              Examples.stale_event Hf Hi Hlt)
    as [s' [Hrun [Hv [Ha [Hb [Hne _]]]]]].
  exists s'. repeat split; assumption.
Defined.

End EmptyResults.

(* ================================================================== *)
(** * Starting, stopping and toggling *)
(* ================================================================== *)

Import Controller.

Ltac run_js :=
  unfold record, startRecording, stopRecording, handleSpeechRecognitionError,
    connect, getSpeechRecognition, new_SpeechRecognition, engine_invoke,
    set_button_textContent, console_log, console_error,
    bind, gets, modify, throw, ret, called, log_entry in *.

Section Recording.

Lemma stopRecording_with_handle (s : State) (h : SpeechRecognition) :
  speechRecognition s = Some h ->
  stopRecording s =
    Returns tt
      (with_console (console s ++ [log_entry "Stop recording"])
         (with_speaking false
            (with_speechRecognition (Some (called CallStop h)) s))).
Proof. intros H. run_js. rewrite H. reflexivity. Qed.

Lemma startRecording_with_handle (s : State) (h : SpeechRecognition) :
  speechRecognition s = Some h ->
  startRecording s =
    Returns tt
      (with_console (console s ++ [log_entry "Start recording"])
         (with_speaking true
            (with_speechRecognition (Some (called CallStart h)) s))).
Proof. intros H. run_js. rewrite H. reflexivity. Qed.

Lemma stopRecording_null (s : State) :
  speechRecognition s = None ->
  stopRecording s = Throws (TypeError "stop") s.
Proof. intros H. run_js. rewrite H. reflexivity. Qed.

Lemma startRecording_null (s : State) :
  speechRecognition s = None ->
  startRecording s = Throws (TypeError "start") s.
Proof. intros H. run_js. rewrite H. reflexivity. Qed.

Lemma record_null (s : State) :
  speechRecognition s = None ->
  record s =
    Returns tt
      (with_console
         (console s ++ [mkEntry LevelError ["Speech recognition is not available"]])
         s).
Proof. intros H. run_js. rewrite H. reflexivity. Qed.

(** One click with a handle: the engine takes the call, the flag flips
    and the button shows the label of the new state. *)
Lemma record_with_handle (s : State) (h : SpeechRecognition) :
  speechRecognition s = Some h ->
  record s =
    Returns tt
      (if speaking s then
         with_startButtonTarget (mkButton "Start Voice Input")
           (with_console (console s ++ [log_entry "Stop recording"])
              (with_speaking false
                 (with_speechRecognition (Some (called CallStop h)) s)))
       else
         with_startButtonTarget (mkButton "Stop Voice Input")
           (with_console (console s ++ [log_entry "Start recording"])
              (with_speaking true
                 (with_speechRecognition (Some (called CallStart h)) s)))).
Proof.
  intros H. run_js. rewrite H.
  destruct (speaking s); cbn; rewrite H; reflexivity.
Qed.

Lemma handleError_with_handle (s : State) (h : SpeechRecognition)
    (event : ErrorEvent) :
  speechRecognition s = Some h ->
  handleSpeechRecognitionError event s =
    Returns tt
      (with_console
         (console s
            ++ [mkEntry LevelError ["Speech recognition error:"; error event]]
            ++ [log_entry "Stop recording"])
         (with_speaking false
            (with_speechRecognition (Some (called CallStop h)) s))).
Proof.
  intros H. unfold handleSpeechRecognitionError, bind, console_error, modify.
  rewrite (stopRecording_with_handle _ h) by exact H. cbn.
  now rewrite <- app_assoc.
Qed.

Lemma handleError_null (s : State) (event : ErrorEvent) :
  speechRecognition s = None ->
  handleSpeechRecognitionError event s =
    Throws (TypeError "stop")
      (with_console
         (console s
            ++ [mkEntry LevelError ["Speech recognition error:"; error event]])
         s).
Proof.
  intros H. unfold handleSpeechRecognitionError, bind, console_error, modify.
  now rewrite stopRecording_null by exact H.
Qed.

(** ** Without the capability *)

(** C1, as the code has it. When the engine handle is null, [record]
    (toggle) is a no-op that reports the error on the console and returns,
    in every such state; [startRecording] and [stopRecording], whose
    precondition is that a handle exists, change nothing either, but they
    end with a [TypeError] and report nothing. *)
Theorem null_handle_operations :
  forall s : State,
    speechRecognition s = None ->
    record s =
      Returns tt
        (with_console
           (console s
              ++ [mkEntry LevelError ["Speech recognition is not available"]])
           s) /\
    startRecording s = Throws (TypeError "start") s /\
    stopRecording s = Throws (TypeError "stop") s /\
    speechRecognition (after_of (record s)) = None.
Proof.
  intros s H.
  rewrite (record_null s H), (startRecording_null s H),
    (stopRecording_null s H).
  repeat split. exact H.
Qed.

Lemma null_handle_operations_witness :
  speechRecognition Examples.unavailable = None /\
  returnsb (record Examples.unavailable) = true /\
  speaking (after_of (record Examples.unavailable)) = Idle /\
  startRecording Examples.unavailable
    = Throws (TypeError "start") Examples.unavailable /\
  stopRecording Examples.unavailable
    = Throws (TypeError "stop") Examples.unavailable.
Proof.
  assert (H : speechRecognition Examples.unavailable = None) by reflexivity.
  destruct (null_handle_operations Examples.unavailable H)
    as [Hr [Hstart [Hstop _]]].
  split; [exact H|].
  rewrite Hr. repeat split; assumption.
Defined.

(** C1 as it is written fails: connected in a browser without the
    capability, [startRecording] and [stopRecording] throw. *)
Lemma null_handle_start_stop_throw :
  speechRecognition Examples.unavailable = None /\
  returnsb (startRecording Examples.unavailable) = false /\
  returnsb (stopRecording Examples.unavailable) = false /\
  console (after_of (startRecording Examples.unavailable))
    = console Examples.unavailable /\
  console (after_of (stopRecording Examples.unavailable))
    = console Examples.unavailable.
Proof. repeat split. Qed.

End Recording.

(* ================================================================== *)
(** * Initialisation *)
(* ================================================================== *)

Section Initialisation.

Lemma connect_run (page : State) :
  exists s',
    connect page = Returns tt s' /\
    speaking s' = false /\
    speechRecognition s'
      = (if available page then Some (configured (constructed page))
         else None) /\
    constructed s'
      = (if available page then S (constructed page) else constructed page) /\
    window s' = window page /\
    inputTarget s' = inputTarget page /\
    startButtonTarget s' = startButtonTarget page.
Proof.
  unfold available, configured. run_js.
  destruct page as [[a b] n c h sp i btn]; cbn.
  destruct a, b; cbn; eexists; repeat split.
Qed.

(** C9. Initialisation sets RecordingState to Idle and, when it obtains an
    engine handle (which it does exactly when the browser offers one of
    the two constructors), configures it with continuous = true,
    interimResults = true and language "en-US". *)
Theorem connect_configures_engine :
  forall page : State,
    exists s',
      connect page = Returns tt s' /\
      speaking s' = Idle /\
      match speechRecognition s' with
      | Some h =>
          has_SpeechRecognition (window page)
            || has_webkitSpeechRecognition (window page) = true /\
          continuous h = true /\
          interimResults h = true /\
          lang h = "en-US"
      | None =>
          has_SpeechRecognition (window page)
            || has_webkitSpeechRecognition (window page) = false
      end.
Proof.
  intros page.
  destruct (connect_run page) as [s' [Hrun [Hsp [Hh _]]]].
  exists s'. split; [exact Hrun | split; [exact Hsp |]].
  rewrite Hh. unfold available, configured.
  destruct (has_SpeechRecognition (window page)
            || has_webkitSpeechRecognition (window page));
    repeat split.
Qed.

End Initialisation.

(* ================================================================== *)
(** * What a task leaves alone *)
(* ================================================================== *)

Section Frames.

Lemma engine_object_onend (h : SpeechRecognition) :
  onend (engine_object h) = onend h.
Proof. reflexivity. Qed.

Lemma preserved_refl (s : State) : preserved s s.
Proof. repeat split. Qed.

Lemma preserved_trans (s1 s2 s3 : State) :
  preserved s1 s2 -> preserved s2 s3 -> preserved s1 s3.
Proof.
  intros (Hw & Hc & Hh & Hs) (Hw' & Hc' & Hh' & Hs').
  repeat split; try congruence.
  intros Hnone. rewrite Hs' , Hs; auto.
  rewrite Hnone in Hh. destruct (speechRecognition s2); [discriminate|auto].
Qed.

Lemma step_preserved (s : State) (a : Action) : preserved s (step s a).
Proof.
  unfold preserved, step, perform.
  destruct a as [ | | | event | event | f i | ev | i].
  - destruct (speechRecognition s) as [h|] eqn:Hh.
    + rewrite (record_with_handle s h Hh).
      destruct (speaking s); cbn; rewrite ?Hh; repeat split; discriminate.
    + rewrite (record_null s Hh). cbn. rewrite ?Hh. repeat split.
  - destruct (speechRecognition s) as [h|] eqn:Hh.
    + rewrite (startRecording_with_handle s h Hh). cbn. rewrite ?Hh.
      repeat split; discriminate.
    + rewrite (startRecording_null s Hh). cbn. rewrite ?Hh. repeat split.
  - destruct (speechRecognition s) as [h|] eqn:Hh.
    + rewrite (stopRecording_with_handle s h Hh). cbn. rewrite ?Hh.
      repeat split; discriminate.
    + rewrite (stopRecording_null s Hh). cbn. rewrite ?Hh. repeat split.
  - destruct (speechRecognition s) as [h|] eqn:Hh.
    + rewrite (handleError_with_handle s h event Hh). cbn. rewrite ?Hh.
      repeat split; discriminate.
    + rewrite (handleError_null s event Hh). cbn. rewrite ?Hh.
      repeat split.
  - unfold handleSpeechRecognitionResult. rewrite updateInputValue_run.
    repeat split.
  - rewrite updateInputValue_run. repeat split.
  - unfold bind, gets.
    destruct (speechRecognition s) as [h|] eqn:Hh;
      [|cbn; rewrite ?Hh; repeat split].
    cbv beta iota. unfold ret.
    destruct ev as [ | event | | event]; unfold fire.
    + destruct (onstart h) as [[m]|]; cbn; rewrite ?Hh; repeat split.
    + destruct (onerror h) as [[]|]; unfold call_error.
      * rewrite (handleError_with_handle s h event Hh). cbn. rewrite ?Hh.
        repeat split; discriminate.
      * cbn. rewrite ?Hh. repeat split.
    + destruct (onend h) as [[m]|]; cbn; rewrite ?Hh; repeat split.
    + destruct (onresult h) as [[]|]; unfold call_result.
      * unfold handleSpeechRecognitionResult. rewrite updateInputValue_run.
        cbn. rewrite ?Hh. repeat split.
      * cbn. rewrite ?Hh. repeat split.
  - repeat split.
Qed.

Lemma run_preserved (actions : list Action) :
  forall s : State, preserved s (run actions s).
Proof.
  induction actions as [|a actions IH]; intros s; simpl.
  - apply preserved_refl.
  - eapply preserved_trans; [apply step_preserved | apply IH].
Qed.

Lemma preserved_handle_or_idle (s s' : State) :
  preserved s s' -> handle_or_idle s -> handle_or_idle s'.
Proof.
  intros (_ & _ & Hh & Hs) Hinv Hnone.
  rewrite Hnone in Hh.
  destruct (speechRecognition s) eqn:E; [discriminate|].
  rewrite Hs by reflexivity. now apply Hinv.
Qed.

Lemma connected_handle_or_idle (page : State) (actions : list Action) :
  handle_or_idle (run actions (after_of (connect page))).
Proof.
  eapply preserved_handle_or_idle; [apply run_preserved|].
  destruct (connect_run page) as [s' [Hrun [Hsp _]]].
  rewrite Hrun. intros _. exact Hsp.
Qed.

End Frames.

(* ================================================================== *)
(** * The engine handle *)
(* ================================================================== *)

Section Handle.

Lemma available_window (s s' : State) :
  window s' = window s -> available s' = available s.
Proof. unfold available. now intros ->. Qed.

Lemma preserved_handle_id (s s' : State) :
  preserved s s' ->
  option_map handle_id (speechRecognition s')
    = option_map handle_id (speechRecognition s).
Proof.
  intros (_ & _ & Hh & _).
  destruct (speechRecognition s') as [h'|], (speechRecognition s) as [h|];
    simpl in *; try discriminate; try reflexivity.
  assert (Heq : engine_object h' = engine_object h) by congruence.
  f_equal.
  change (handle_id (engine_object h') = handle_id (engine_object h)).
  now rewrite Heq.
Qed.

(** Over a life, the engines constructed are counted by the runs of
    [connect]. *)
Lemma live_constructed (es : list Usage.Lifecycle) :
  forall s : State,
    constructed (Usage.live es s)
      = constructed s + (if available s then Usage.connects es else 0).
Proof.
  induction es as [|e es IH]; intros s.
  - simpl. destruct (available s); lia.
  - change (Usage.live (e :: es) s)
      with (Usage.live es (Usage.live_step s e)).
    rewrite IH. destruct e as [|a]; simpl Usage.live_step; simpl Usage.connects.
    + destruct (connect_run s) as [s' [Hrun [_ [_ [Hc [Hw _]]]]]].
      rewrite Hrun. simpl after_of.
      rewrite (available_window s s' Hw), Hc.
      destruct (available s); lia.
    + destruct (step_preserved s a) as (Hw & Hc & _ & _).
      now rewrite (available_window s _ Hw), Hc.
Qed.

Lemma connect_holds_latest (s : State) :
  Usage.holds_latest_engine (after_of (connect s)).
Proof.
  destruct (connect_run s) as [s' [Hrun [_ [Hh [Hc [Hw _]]]]]].
  rewrite Hrun. simpl after_of. unfold Usage.holds_latest_engine.
  rewrite (available_window s s' Hw), Hh, Hc.
  destruct (available s); [|reflexivity].
  eexists. split; reflexivity.
Qed.

Lemma step_holds_latest (s : State) (a : Action) :
  Usage.holds_latest_engine s -> Usage.holds_latest_engine (step s a).
Proof.
  unfold Usage.holds_latest_engine. intros H.
  pose proof (step_preserved s a) as Hp.
  pose proof (preserved_handle_id _ _ Hp) as Hid.
  destruct Hp as (Hw & Hc & _ & _).
  rewrite (available_window s _ Hw), Hc.
  destruct (available s).
  - destruct H as [h [Hh Hlast]]. rewrite Hh in Hid.
    destruct (speechRecognition (step s a)) as [h'|]; [|discriminate].
    exists h'. split; [reflexivity|].
    simpl in Hid. inversion Hid as [Heq]. now rewrite Heq.
  - rewrite H in Hid.
    destruct (speechRecognition (step s a)); [discriminate | reflexivity].
Qed.

Lemma live_holds_latest (es : list Usage.Lifecycle) :
  forall s : State,
    Usage.holds_latest_engine s -> Usage.holds_latest_engine (Usage.live es s).
Proof.
  induction es as [|e es IH]; intros s H; [exact H|].
  change (Usage.live (e :: es) s) with (Usage.live es (Usage.live_step s e)).
  apply IH. destruct e as [|a]; simpl.
  - apply connect_holds_latest.
  - now apply step_holds_latest.
Qed.

(** C7, as the code has it. Every run of [connect] creates exactly one
    engine handle when the browser offers a recognition constructor, a
    fresh one that the controller then holds, and none when it offers
    neither; and no sequence of clicks, start or stop calls, handler calls,
    engine events or edits creates another handle or replaces the one
    held.  The handle is one per run of [connect], not one per controller:
    [connect] does not reuse a handle, so a controller that is connected
    [k] times has created [k] handles and holds the last. *)
Theorem engine_handle_per_connect :
  (forall page : State,
      exists s',
        connect page = Returns tt s' /\
        if available page then
          exists h,
            speechRecognition s' = Some h /\
            handle_id h = constructed page /\
            calls h = [] /\
            constructed s' = S (constructed page)
        else
          speechRecognition s' = None /\
          constructed s' = constructed page)
  /\
  (forall (actions : list Action) (s : State),
      constructed (run actions s) = constructed s /\
      option_map engine_object (speechRecognition (run actions s))
        = option_map engine_object (speechRecognition s) /\
      option_map handle_id (speechRecognition (run actions s))
        = option_map handle_id (speechRecognition s))
  /\
  (forall (es : list Usage.Lifecycle) (page : State),
      constructed (Usage.live es page)
        = constructed page
          + (if available page then Usage.connects es else 0) /\
      Usage.holds_latest_engine (Usage.live (Usage.Connects :: es) page)).
Proof.
  split; [|split].
  - intros page.
    destruct (connect_run page) as [s' [Hrun [_ [Hh [Hc _]]]]].
    exists s'. split; [exact Hrun|].
    rewrite Hh, Hc. destruct (available page).
    + eexists. repeat split.
    + split; reflexivity.
  - intros actions s.
    pose proof (run_preserved actions s) as Hp.
    pose proof (preserved_handle_id _ _ Hp) as Hid.
    destruct Hp as (_ & Hc & Hh & _).
    repeat split; assumption.
  - intros es page. split.
    + apply live_constructed.
    + change (Usage.live (Usage.Connects :: es) page)
        with (Usage.live es (after_of (connect page))).
      apply live_holds_latest, connect_holds_latest.
Qed.

(** C7 as it is written fails: a controller that is connected, used and
    connected again has created two engines, and the second took the place
    of the first. *)
Lemma second_connect_creates_second_engine :
  let page := Examples.page Examples.chrome Examples.hello_world
                "Start Voice Input" in
  constructed page = 0 /\
  constructed (Usage.live [Usage.Connects] page) = 1 /\
  option_map handle_id (speechRecognition (Usage.live [Usage.Connects] page))
    = Some 0 /\
  constructed
    (Usage.live [Usage.Connects; Usage.Does Click; Usage.Connects] page) = 2 /\
  option_map handle_id
    (speechRecognition
       (Usage.live [Usage.Connects; Usage.Does Click; Usage.Connects] page))
    = Some 1.
Proof. repeat split. Qed.

(** In a connected controller the handle, when there is one, carries the
    listeners [connect] installed. *)
Lemma connected_handle (page : State) (actions : list Action)
    (h : SpeechRecognition) :
  speechRecognition (run actions (after_of (connect page))) = Some h ->
  engine_object h = configured (constructed page).
Proof.
  intros H.
  destruct (run_preserved actions (after_of (connect page)))
    as (_ & _ & Hh & _).
  destruct (connect_run page) as [s' [Hrun [_ [Hs' _]]]].
  rewrite Hrun in *. simpl after_of in *.
  rewrite H, Hs' in Hh.
  destruct (available page); simpl in Hh; [|discriminate].
  change (configured (constructed page))
    with (engine_object (configured (constructed page))).
  congruence.
Qed.

(** C8. The engine's end event is reported only: in a connected
    controller, whatever happened before, handling it returns and leaves
    the RecordingState, the engine handle, the input's text and selection
    and the button label as they were; it adds one line to the console. *)
Theorem onend_reports_only :
  forall (page : State) (actions : list Action),
    let s := run actions (after_of (connect page)) in
    exists s',
      perform (EngineFires EvEnd) s = Returns tt s' /\
      speaking s' = speaking s /\
      speechRecognition s' = speechRecognition s /\
      inputTarget s' = inputTarget s /\
      startButtonTarget s' = startButtonTarget s /\
      window s' = window s /\
      constructed s' = constructed s /\
      console s'
        = (console s
             ++ match speechRecognition s with
                | Some _ => [log_entry "Recording stopped..."]
                | None => []
                end)%list.
Proof.
  intros page actions s.
  unfold perform, bind, gets.
  destruct (speechRecognition s) as [h|] eqn:Hh.
  - apply connected_handle in Hh as Hobj.
    assert (Hend : onend h = Some (LogListener "Recording stopped..."))
      by (rewrite <- engine_object_onend, Hobj; reflexivity).
    unfold fire. rewrite Hend. cbn.
    eexists. repeat split. exact Hh.
  - exists s. unfold ret. rewrite Hh, app_nil_r. repeat split.
Qed.

End Handle.

(* ================================================================== *)
(** * Engine errors *)
(* ================================================================== *)

Section Errors.

(** C5. Invoking the error handler leaves RecordingState equal to Idle,
    whether it was Idle or Recording before: with an engine handle the
    handler returns and the flag is false; and in every state a connected
    controller can be in, with or without a handle, the flag is false once
    the handler is left. *)
Theorem error_handler_leaves_Idle :
  (forall (s : State) (h : SpeechRecognition) (event : ErrorEvent),
      speechRecognition s = Some h ->
      exists s',
        handleSpeechRecognitionError event s = Returns tt s' /\
        speaking s' = Idle)
  /\
  (forall (page : State) (actions : list Action) (event : ErrorEvent),
      let s := run actions (after_of (connect page)) in
      speaking (after_of (handleSpeechRecognitionError event s)) = Idle /\
      speaking (after_of (perform (EngineFires (EvError event)) s)) = Idle).
Proof.
  split.
  - intros s h event Hh.
    rewrite (handleError_with_handle s h event Hh).
    eexists. split; reflexivity.
  - intros page actions event s.
    pose proof (connected_handle_or_idle page actions) as Hinv.
    fold s in Hinv.
    destruct (speechRecognition s) as [h|] eqn:Hh.
    + split.
      * now rewrite (handleError_with_handle s h event Hh).
      * unfold perform, bind, gets. rewrite Hh.
        apply connected_handle in Hh as Hobj.
        assert (Herr : onerror h = Some ForwardError).
        { change (onerror (engine_object h) = Some ForwardError).
          now rewrite Hobj. }
        unfold fire. rewrite Herr. unfold call_error.
        now rewrite (handleError_with_handle s h event Hh).
    + split.
      * rewrite (handleError_null s event Hh). simpl. now apply Hinv.
      * unfold perform, bind, gets. rewrite Hh. simpl. now apply Hinv.
Qed.

(** From Recording, with a handle, the handler returns in Idle. *)
Lemma error_handler_leaves_Idle_witness :
  speechRecognition Examples.recording
    = Some (called CallStart (configured 0)) /\
  speaking Examples.recording = Recording /\
  exists s',
    handleSpeechRecognitionError Examples.no_speech Examples.recording
      = Returns tt s' /\
    speaking s' = Idle.
Proof.
  assert (H : speechRecognition Examples.recording
              = Some (called CallStart (configured 0))) by reflexivity.
  split; [exact H | split; [reflexivity |]].
  exact (proj1 error_handler_leaves_Idle Examples.recording _
           Examples.no_speech H).
Defined.

(** The error handler never writes the button. *)
Lemma error_handler_keeps_button (s : State) (event : ErrorEvent) :
  startButtonTarget (after_of (handleSpeechRecognitionError event s))
    = startButtonTarget s.
Proof.
  destruct (speechRecognition s) as [h|] eqn:Hh.
  - now rewrite (handleError_with_handle s h event Hh).
  - now rewrite (handleError_null s event Hh).
Qed.

(** C3, at the input where the code departs from it. The engine reports
    "no-speech" during a recording: the controller goes to Idle, and the
    button still reads "Stop Voice Input". *)
Theorem error_while_recording_keeps_stop_label :
  speaking Examples.recording = Recording /\
  textContent (startButtonTarget Examples.recording) = "Stop Voice Input" /\
  speaking Examples.after_error = Idle /\
  textContent (startButtonTarget Examples.after_error) = "Stop Voice Input" /\
  textContent (startButtonTarget Examples.after_error) <> "Start Voice Input".
Proof. repeat split. discriminate. Qed.

End Errors.

(* ================================================================== *)
(** * Two clicks *)
(* ================================================================== *)

Section Toggle.

(** C6, as the code has it. With an engine handle, two calls of [record]
    in succession return; RecordingState is what it was, from Idle and
    from Recording; and the button shows the label of that state, so the
    label it had is restored exactly when it was that label. *)
Theorem toggle_twice :
  forall (s : State) (h : SpeechRecognition),
    speechRecognition s = Some h ->
    exists s1 s2,
      record s = Returns tt s1 /\
      record s1 = Returns tt s2 /\
      speaking s1 = negb (speaking s) /\
      speaking s2 = speaking s /\
      textContent (startButtonTarget s2) = label_of (speaking s) /\
      (textContent (startButtonTarget s) = label_of (speaking s) ->
       startButtonTarget s2 = startButtonTarget s).
Proof.
  intros [w n c h0 sp i [label]] h Hh. simpl in Hh. subst h0.
  destruct sp; do 2 eexists; cbn;
    (repeat split; try reflexivity);
    intros Hl; now rewrite Hl.
Qed.

Lemma toggle_twice_witness :
  speechRecognition Examples.recording
    = Some (called CallStart (configured 0)) /\
  textContent (startButtonTarget Examples.recording)
    = label_of (speaking Examples.recording) /\
  speaking (run [Click; Click] Examples.recording) = Recording /\
  startButtonTarget (run [Click; Click] Examples.recording)
    = startButtonTarget Examples.recording.
Proof.
  assert (H : speechRecognition Examples.recording
              = Some (called CallStart (configured 0))) by reflexivity.
  assert (Hl : textContent (startButtonTarget Examples.recording)
               = label_of (speaking Examples.recording)) by reflexivity.
  split; [exact H | split; [exact Hl |]].
  destruct (toggle_twice Examples.recording _ H)
    as [s1 [s2 [H1 [H2 [_ [Hsp [_ Hb]]]]]]].
  change (run [Click; Click] Examples.recording)
    with (after_of (record (after_of (record Examples.recording)))).
  rewrite H1. simpl after_of. rewrite H2. simpl after_of.
  split; [exact Hsp | exact (Hb Hl)].
Defined.

(** C6 as it is written fails. After an engine error during a recording
    the controller is Idle and the button reads "Stop Voice Input"; two
    clicks later it is Idle again and the button reads "Start Voice Input".
    Likewise on a page whose markup labels the button "Record". *)
Lemma toggle_twice_changes_label :
  (speechRecognition Examples.after_error <> None /\
   speaking Examples.after_error = Idle /\
   textContent (startButtonTarget Examples.after_error) = "Stop Voice Input" /\
   speaking (run [Click; Click] Examples.after_error) = Idle /\
   textContent (startButtonTarget (run [Click; Click] Examples.after_error))
     = "Start Voice Input" /\
   textContent (startButtonTarget (run [Click; Click] Examples.after_error))
     <> textContent (startButtonTarget Examples.after_error))
  /\
  (speechRecognition Examples.custom_label <> None /\
   speaking Examples.custom_label = Idle /\
   textContent (startButtonTarget Examples.custom_label) = "Record" /\
   textContent (startButtonTarget (run [Click; Click] Examples.custom_label))
     = "Start Voice Input" /\
   textContent (startButtonTarget (run [Click; Click] Examples.custom_label))
     <> textContent (startButtonTarget Examples.custom_label)).
Proof. repeat split; discriminate. Qed.

End Toggle.

(* ================================================================== *)
(** * Result events, end to end *)
(* ================================================================== *)

Section ResultEvents.

Import JsString.

Lemma take_drop (s : string) (n : nat) : take n s ++ drop n s = s.
Proof.
  revert n; induction s as [|c s IH]; intros [|n]; simpl; try reflexivity.
  now rewrite IH.
Qed.

Lemma take_app_length (a b : string) (n : nat) :
  take (String.length a + n) (a ++ b) = a ++ take n b.
Proof. induction a as [|c a IH]; simpl; [reflexivity | now rewrite IH]. Qed.

Lemma drop_app_length (a b : string) (n : nat) :
  drop (String.length a + n) (a ++ b) = drop n b.
Proof. induction a as [|c a IH]; simpl; [reflexivity | apply IH]. Qed.

Lemma length_take_le (s : string) (n : nat) :
  n <= String.length s -> String.length (take n s) = n.
Proof. intros H. rewrite length_take. lia. Qed.

(** X1. Handling a result event, whatever the RecordingState and whether or not
    there is an engine handle: the call returns; the input's text becomes
    text[0:start] + finalText + text[end:], with the finalText and
    interimText of the event's slots from [resultIndex] on; the selection
    becomes [start + len(finalText), start + len(finalText) +
    len(interimText)]; the flag, the handle, the button and the console are
    not touched. *)
Theorem handleSpeechRecognitionResult_run (s : State) (e : ResultEvent) :
  handleSpeechRecognitionResult e s =
    Returns tt
      (with_inputTarget
         (mkInput
            (take (selectionStart (inputTarget s)) (value (inputTarget s))
               ++ Spec.finalText e
               ++ drop (selectionEnd (inputTarget s)) (value (inputTarget s)))
            (selectionStart (inputTarget s) + String.length (Spec.finalText e))
            (selectionStart (inputTarget s) + String.length (Spec.finalText e)
             + String.length (Spec.interimText e)))
         s).
Proof.
  unfold handleSpeechRecognitionResult.
  rewrite extractTranscripts_run, updateInputValue_run.
  reflexivity.
Qed.

(** Two calls of [updateInputValue] in a row, from a selection that starts
    inside the text. *)
Lemma updateInputValue_twice (s : State) (f1 i1 f2 i2 : string) :
  selectionStart (inputTarget s) <= String.length (value (inputTarget s)) ->
  bind (updateInputValue f1 i1) (fun _ => updateInputValue f2 i2) s =
    Returns tt
      (with_inputTarget
         (mkInput
            (take (selectionStart (inputTarget s)) (value (inputTarget s))
               ++ f1 ++ f2
               ++ drop (String.length i1)
                    (drop (selectionEnd (inputTarget s))
                       (value (inputTarget s))))
            (selectionStart (inputTarget s) + String.length f1
             + String.length f2)
            (selectionStart (inputTarget s) + String.length f1
             + String.length f2 + String.length i2))
         s).
Proof.
  intros Hle. unfold bind.
  rewrite updateInputValue_run, updateInputValue_run.
  destruct s as [w n c h sp [v a b] btn]; simpl in *.
  unfold Spec.updatedText, with_inputTarget; simpl.
  f_equal. f_equal. f_equal.
  rewrite <- (append_assoc (take a v) f1 (drop b v)).
  assert (Hlen : String.length (take a v ++ f1) = a + String.length f1)
    by (rewrite length_append, length_take_le by exact Hle; reflexivity).
  rewrite <- Hlen.
  rewrite <- (Nat.add_0_r (String.length (take a v ++ f1))) at 1.
  rewrite take_app_length, drop_app_length. simpl take.
  now rewrite append_empty_r, !append_assoc.
Qed.

(** X2. What an event reports as interim text is never written into the input,
    only selected at the caret; the next event then overwrites that
    selection.  So for every selection that starts inside the text, after
    [updateInputValue(f1, i1)] and then [updateInputValue(f2, i2)] the text
    is text[0:start] + f1 + f2 followed by text[end:] less its first
    len(i1) code units: each interim code unit of the first event costs one
    code unit of the text that followed the selection. *)
Theorem interim_text_consumes_following_text :
  forall (s : State) (f1 i1 f2 i2 : string),
    selectionStart (inputTarget s) <= String.length (value (inputTarget s)) ->
    exists s1 s2,
      updateInputValue f1 i1 s = Returns tt s1 /\
      updateInputValue f2 i2 s1 = Returns tt s2 /\
      value (inputTarget s2)
        = take (selectionStart (inputTarget s)) (value (inputTarget s))
            ++ f1 ++ f2
            ++ drop (String.length i1)
                 (drop (selectionEnd (inputTarget s)) (value (inputTarget s))) /\
      selectionStart (inputTarget s2)
        = selectionStart (inputTarget s) + String.length f1 + String.length f2 /\
      selectionEnd (inputTarget s2)
        = selectionStart (inputTarget s) + String.length f1 + String.length f2
          + String.length i2.
Proof.
  intros s f1 i1 f2 i2 Hle.
  pose proof (updateInputValue_twice s f1 i1 f2 i2 Hle) as H.
  unfold bind in H. rewrite updateInputValue_run in H.
  eexists. eexists. split; [apply updateInputValue_run|].
  split; [exact H|]. repeat split.
Qed.

(** "hello world" with the caret after "hello": the event (" there", "xx")
    and then ("!", "") leave "hello there!orld". *)
Lemma interim_text_consumes_following_text_witness :
  selectionStart (inputTarget Examples.connected)
    <= String.length (value (inputTarget Examples.connected)) /\
  exists s1 s2,
    updateInputValue " there" "xx" Examples.connected = Returns tt s1 /\
    updateInputValue "!" "" s1 = Returns tt s2 /\
    value (inputTarget s2) = "hello there!orld" /\
    selectionStart (inputTarget s2) = 12 /\
    selectionEnd (inputTarget s2) = 12.
Proof.
  assert (H : selectionStart (inputTarget Examples.connected)
              <= String.length (value (inputTarget Examples.connected)))
    by (simpl; lia).
  split; [exact H|].
  destruct (interim_text_consumes_following_text Examples.connected
              " there" "xx" "!" "" H)
    as [s1 [s2 [H1 [H2 [Hv [Ha Hb]]]]]].
  exists s1, s2. repeat split; assumption.
Defined.

(** X3. Final text accumulates: for every selection that starts inside the
    text, [updateInputValue(f1, "")] followed by [updateInputValue(f2, i2)]
    leaves the input exactly as the single call
    [updateInputValue(f1 + f2, i2)] does. *)
Theorem final_text_accumulates :
  forall (s : State) (f1 f2 i2 : string),
    selectionStart (inputTarget s) <= String.length (value (inputTarget s)) ->
    bind (updateInputValue f1 "") (fun _ => updateInputValue f2 i2) s
      = updateInputValue (f1 ++ f2) i2 s.
Proof.
  intros s f1 f2 i2 Hle.
  rewrite (updateInputValue_twice s f1 "" f2 i2 Hle), updateInputValue_run.
  unfold Spec.updatedText. simpl drop.
  now rewrite length_append, append_assoc, Nat.add_assoc.
Qed.

Lemma final_text_accumulates_witness :
  selectionStart (inputTarget Examples.world_selected)
    <= String.length (value (inputTarget Examples.world_selected)) /\
  bind (updateInputValue "big " "") (fun _ => updateInputValue "moon" "?")
       Examples.world_selected
    = updateInputValue "big moon" "?" Examples.world_selected /\
  value (inputTarget
           (after_of (updateInputValue "big moon" "?" Examples.world_selected)))
    = "hello big moon".
Proof.
  assert (H : selectionStart (inputTarget Examples.world_selected)
              <= String.length (value (inputTarget Examples.world_selected)))
    by (simpl; lia).
  split; [exact H|].
  split; [|reflexivity].
  exact (final_text_accumulates Examples.world_selected "big " "moon" "?" H).
Defined.

(** X4. An event that carries interim text only, arriving at a collapsed caret,
    changes no text and does not move the caret: it only extends the
    selection by the length of the interim text. *)
Theorem interim_only_keeps_text :
  forall (s : State) (interimText : string),
    selectionStart (inputTarget s) = selectionEnd (inputTarget s) ->
    updateInputValue "" interimText s =
      Returns tt
        (with_inputTarget
           (mkInput (value (inputTarget s))
                    (selectionStart (inputTarget s))
                    (selectionStart (inputTarget s)
                     + String.length interimText))
           s).
Proof.
  intros s i Heq. rewrite updateInputValue_run.
  unfold Spec.updatedText. rewrite <- Heq. simpl String.append.
  now rewrite take_drop, Nat.add_0_r.
Qed.

Lemma interim_only_keeps_text_witness :
  selectionStart (inputTarget Examples.connected)
    = selectionEnd (inputTarget Examples.connected) /\
  inputTarget (after_of (updateInputValue "" "ing" Examples.connected))
    = mkInput "hello world" 5 8.
Proof.
  assert (H : selectionStart (inputTarget Examples.connected)
              = selectionEnd (inputTarget Examples.connected)) by reflexivity.
  split; [exact H|].
  now rewrite (interim_only_keeps_text Examples.connected "ing" H).
Defined.

End ResultEvents.

(* ================================================================== *)
(** * What extraction reads *)
(* ================================================================== *)

Section ExtractionFacts.

Import Usage.

Lemma join_app (xs ys : list string) :
  JsString.join (xs ++ ys) = JsString.join xs ++ JsString.join ys.
Proof.
  induction xs as [|x xs IH]; simpl; [reflexivity|].
  now rewrite IH, append_assoc.
Qed.

Lemma skipn_past_prefix {A : Type} (pre rs : list A) (n : nat) :
  skipn (List.length pre + n) (pre ++ rs) = skipn n rs.
Proof. induction pre as [|x pre IH]; simpl; [reflexivity | exact IH]. Qed.

(** X5. The slots before [resultIndex] are never read: an event gives the same
    two transcripts whatever slots precede its first changed index, and
    however many of them there are. *)
Theorem extractTranscripts_skips_settled_slots :
  forall (settled changed : list RecognitionResult) (n : nat),
    extractTranscripts (mkResultEvent (List.length settled + n)
                                      (settled ++ changed))
      = extractTranscripts (mkResultEvent n changed).
Proof.
  intros settled changed n.
  rewrite !extractTranscripts_run. simpl resultIndex. simpl results.
  now rewrite skipn_past_prefix.
Qed.

(** X6. Read from the first slot, an event whose slots are [rs1] followed by
    [rs2] gives the final transcript of [rs1] followed by that of [rs2],
    and likewise for the interim transcript: the order of the slots is the
    order of the text. *)
Theorem extractTranscripts_app :
  forall rs1 rs2 : list RecognitionResult,
    let t1 := extractTranscripts (mkResultEvent 0 rs1) in
    let t2 := extractTranscripts (mkResultEvent 0 rs2) in
    extractTranscripts (mkResultEvent 0 (rs1 ++ rs2))
      = mkTranscripts (finalTranscript t1 ++ finalTranscript t2)
                      (interimTranscript t1 ++ interimTranscript t2).
Proof.
  intros rs1 rs2 t1 t2. subst t1 t2.
  rewrite !extractTranscripts_run. simpl.
  now rewrite !filter_app, !map_app, !join_app.
Qed.

Lemma length_join_partition (rs : list RecognitionResult) :
  String.length
    (JsString.join (map Spec.top_transcript (filter isFinal rs)))
  + String.length
      (JsString.join
         (map Spec.top_transcript (filter (fun r => negb (isFinal r)) rs)))
  = transcripts_length rs.
Proof.
  unfold transcripts_length.
  induction rs as [|r rs IH]; simpl; [reflexivity|].
  destruct (isFinal r); simpl; rewrite length_append; lia.
Qed.

Lemma code_units_app (a b : string) :
  code_units (a ++ b) = (code_units a ++ code_units b)%list.
Proof.
  unfold code_units.
  induction a as [|c a IH]; simpl; [reflexivity | now rewrite IH].
Qed.

Lemma code_units_partition (rs : list RecognitionResult) :
  Permutation
    (code_units (JsString.join (map Spec.top_transcript (filter isFinal rs)))
     ++ code_units
          (JsString.join
             (map Spec.top_transcript
                  (filter (fun r => negb (isFinal r)) rs))))%list
    (code_units (JsString.join (map Spec.top_transcript rs))).
Proof.
  induction rs as [|r rs IH]; simpl; [constructor|].
  destruct (isFinal r); simpl; rewrite !code_units_app.
  - rewrite <- app_assoc. now apply Permutation_app_head.
  - etransitivity; [apply Permutation_app_swap_app|].
    now apply Permutation_app_head.
Qed.

(** X7. [extractTranscripts] drops and duplicates no text: the code units
    of finalTranscript together with those of interimTranscript are, up to
    their order, exactly the code units of the top transcripts of the slots
    from [resultIndex] to the end; in particular the two lengths add up to
    the total length of those transcripts. *)
Theorem extractTranscripts_keeps_all_text :
  forall e : ResultEvent,
    Permutation
      (code_units (finalTranscript (extractTranscripts e))
       ++ code_units (interimTranscript (extractTranscripts e)))%list
      (code_units
         (JsString.join
            (map (fun r => transcript (item0 r))
                 (skipn (resultIndex e) (results e))))) /\
    String.length (finalTranscript (extractTranscripts e))
    + String.length (interimTranscript (extractTranscripts e))
    = transcripts_length (skipn (resultIndex e) (results e)).
Proof.
  intros e. rewrite extractTranscripts_run. simpl. split.
  - apply code_units_partition.
  - apply length_join_partition.
Qed.

End ExtractionFacts.

(* ================================================================== *)
(** * Sessions *)
(* ================================================================== *)

Section Sessions.

Import Usage.

(** X8. Initialisation reports on the console and writes nothing on the page:
    it logs that the controller connected and, when the browser offers
    neither constructor, the error that recognition is not supported; the
    input and the button are as they were. *)
Theorem connect_reports :
  forall page : State,
    exists s',
      connect page = Returns tt s' /\
      console s'
        = (console page
             ++ log_entry "VoiceInputController connected"
             :: (if available page then [] else [not_supported]))%list /\
      inputTarget s' = inputTarget page /\
      startButtonTarget s' = startButtonTarget page /\
      window s' = window page.
Proof.
  intros page. unfold available, not_supported. run_js.
  destruct page as [[a b] n c h sp i btn]; cbn.
  destruct a, b; cbn; eexists; repeat split;
    now rewrite <- ?app_assoc.
Qed.

(** X9. The listeners [connect] installs stay in place: in every state of a
    connected controller that holds an engine, a result event of that
    engine is handled by [handleSpeechRecognitionResult], an error event by
    [handleSpeechRecognitionError], and the start event only logs
    "Recording started...". *)
Theorem engine_events_reach_handlers :
  forall (page : State) (actions : list Action) (h : SpeechRecognition)
         (re : ResultEvent) (ee : ErrorEvent),
    let s := run actions (after_of (connect page)) in
    speechRecognition s = Some h ->
    perform (EngineFires (EvResult re)) s = handleSpeechRecognitionResult re s /\
    perform (EngineFires (EvError ee)) s = handleSpeechRecognitionError ee s /\
    perform (EngineFires EvStart) s
      = Returns tt
          (with_console (console s ++ [log_entry "Recording started..."]) s).
Proof.
  intros page actions h re ee s Hh.
  apply connected_handle in Hh as Hobj.
  assert (Hl : onresult h = Some ForwardResult /\
               onerror h = Some ForwardError /\
               onstart h = Some (LogListener "Recording started...")).
  { change (onresult (engine_object h) = Some ForwardResult /\
            onerror (engine_object h) = Some ForwardError /\
            onstart (engine_object h)
              = Some (LogListener "Recording started...")).
    rewrite Hobj. repeat split. }
  destruct Hl as (Hr & He & Hs).
  unfold perform, bind, gets. rewrite Hh. unfold fire.
  rewrite Hr, He, Hs. repeat split.
Qed.

Lemma engine_events_reach_handlers_witness :
  speechRecognition Examples.recording
    = Some (called CallStart (configured 0)) /\
  perform (EngineFires (EvResult Examples.stale_event)) Examples.recording
    = handleSpeechRecognitionResult Examples.stale_event Examples.recording /\
  perform (EngineFires (EvError Examples.no_speech)) Examples.recording
    = handleSpeechRecognitionError Examples.no_speech Examples.recording.
Proof.
  assert (H : speechRecognition Examples.recording
              = Some (called CallStart (configured 0))) by reflexivity.
  split; [exact H|].
  destruct (engine_events_reach_handlers
              (Examples.page Examples.chrome Examples.hello_world
                 "Start Voice Input")
              [Click] _ Examples.stale_event Examples.no_speech H)
    as [Hr [He _]].
  split; [exact Hr | exact He].
Defined.

(** ** The calls the engine receives *)

Lemma last_is_start_snoc (cs : list EngineCall) (c : EngineCall) :
  last_is_start (cs ++ [c]) = is_start c.
Proof. unfold last_is_start. now rewrite last_last. Qed.

Lemma no_double_start_snoc (cs : list EngineCall) (c : EngineCall) :
  no_double_start (cs ++ [c])
    = no_double_start cs && negb (is_start c && last_is_start cs).
Proof.
  induction cs as [|x cs IH].
  - destruct c; reflexivity.
  - destruct cs as [|y cs].
    + destruct x, c; reflexivity.
    + change (last_is_start (x :: y :: cs)) with (last_is_start (y :: cs)).
      destruct x, y; simpl in *; try exact IH; reflexivity.
Qed.

Lemma discipline_after_stop (s : State) (h : SpeechRecognition)
    (c : list ConsoleEntry) :
  no_double_start (calls h) = true ->
  start_stop_discipline
    (with_console c
       (with_speaking false
          (with_speechRecognition (Some (called CallStop h)) s))).
Proof.
  intros Hn. unfold start_stop_discipline, engine_calls, called; cbn.
  rewrite last_is_start_snoc, no_double_start_snoc, Hn. split; reflexivity.
Qed.

Lemma discipline_frame (s s' : State) :
  speechRecognition s' = speechRecognition s ->
  speaking s' = speaking s ->
  start_stop_discipline s -> start_stop_discipline s'.
Proof.
  unfold start_stop_discipline, engine_calls. intros -> ->. exact id.
Qed.

(** A task of the wired page keeps the discipline. *)
Lemma wired_step_discipline (s : State) (a : Action) :
  wired a = true -> start_stop_discipline s -> start_stop_discipline (step s a).
Proof.
  intros Hw Hinv. unfold step, perform.
  destruct a as [ | | | event | event | f i | ev | i]; try discriminate.
  - destruct (speechRecognition s) as [h|] eqn:Hh.
    + rewrite (record_with_handle s h Hh).
      destruct Hinv as [Hsp Hn]. unfold engine_calls in Hsp, Hn.
      rewrite Hh in Hsp, Hn.
      destruct (speaking s); simpl after_of.
      * unfold start_stop_discipline, engine_calls, called; cbn.
        rewrite last_is_start_snoc, no_double_start_snoc, Hn.
        split; reflexivity.
      * unfold start_stop_discipline, engine_calls, called; cbn.
        rewrite last_is_start_snoc, no_double_start_snoc, Hn, <- Hsp.
        split; reflexivity.
    + rewrite (record_null s Hh). simpl after_of.
      now apply (discipline_frame s).
  - unfold bind, gets.
    destruct (speechRecognition s) as [h|] eqn:Hh;
      [|now apply (discipline_frame s)].
    cbv beta iota. unfold ret.
    destruct ev as [ | event | | event]; unfold fire.
    + destruct (onstart h) as [[m]|]; now apply (discipline_frame s).
    + destruct (onerror h) as [[]|]; unfold call_error;
        [|now apply (discipline_frame s)].
      rewrite (handleError_with_handle s h event Hh). simpl after_of.
      apply discipline_after_stop.
      destruct Hinv as [_ Hn]. unfold engine_calls in Hn. now rewrite Hh in Hn.
    + destruct (onend h) as [[m]|]; now apply (discipline_frame s).
    + destruct (onresult h) as [[]|]; unfold call_result;
        [|now apply (discipline_frame s)].
      unfold handleSpeechRecognitionResult. rewrite updateInputValue_run.
      now apply (discipline_frame s).
  - now apply (discipline_frame s).
Qed.

Lemma wired_run_discipline (actions : list Action) :
  forall s : State,
    forallb wired actions = true ->
    start_stop_discipline s -> start_stop_discipline (run actions s).
Proof.
  induction actions as [|a actions IH]; intros s Hw Hinv; simpl in *.
  - exact Hinv.
  - apply andb_prop in Hw as [Ha Hw].
    apply IH; [exact Hw | now apply wired_step_discipline].
Qed.

(** X10. Driven by the page as wired (clicks on the button, events of its own
    engine, edits by the user), a connected controller never tells its
    engine to start twice in a row, and its flag is set exactly when the
    last call it made on the engine was [start()]. *)
Theorem wired_page_never_starts_twice :
  forall (page : State) (actions : list Action),
    forallb wired actions = true ->
    let s := run actions (after_of (connect page)) in
    speaking s = last_is_start (engine_calls s) /\
    no_double_start (engine_calls s) = true.
Proof.
  intros page actions Hw s.
  apply wired_run_discipline; [exact Hw|].
  destruct (connect_run page) as [s' [Hrun [Hsp [Hh _]]]].
  rewrite Hrun. simpl after_of.
  unfold start_stop_discipline, engine_calls. rewrite Hsp, Hh.
  destruct (available page); split; reflexivity.
Qed.

Lemma wired_page_never_starts_twice_witness :
  forallb wired session = true /\
  engine_calls (run session Examples.connected)
    = [CallStart; CallStop; CallStart; CallStop; CallStart] /\
  speaking (run session Examples.connected)
    = last_is_start (engine_calls (run session Examples.connected)) /\
  no_double_start (engine_calls (run session Examples.connected)) = true.
Proof.
  assert (H : forallb wired session = true) by reflexivity.
  split; [exact H | split; [reflexivity|]].
  exact (wired_page_never_starts_twice
           (Examples.page Examples.chrome Examples.hello_world
              "Start Voice Input")
           session H).
Defined.

End Sessions.

(* ================================================================== *)
(** * Clicks *)
(* ================================================================== *)

Section Clicks.

Import Usage.

Lemma run_snoc (actions : list Action) (a : Action) (s : State) :
  run (actions ++ [a]) s = step (run actions s) a.
Proof. unfold run. now rewrite fold_left_app. Qed.

Lemma repeat_snoc {A : Type} (x : A) (n : nat) :
  repeat x (S n) = (repeat x n ++ [x])%list.
Proof. induction n as [|n IH]; simpl in *; [reflexivity | now rewrite <- IH]. Qed.

(** Tasks never take the handle away. *)
Lemma run_keeps_handle (actions : list Action) (s : State)
    (h : SpeechRecognition) :
  speechRecognition s = Some h ->
  exists h', speechRecognition (run actions s) = Some h'.
Proof.
  intros Hh. destruct (run_preserved actions s) as (_ & _ & Ho & _).
  rewrite Hh in Ho.
  destruct (speechRecognition (run actions s)) as [h'|];
    [now exists h' | discriminate].
Qed.

(** X11. With an engine handle, [n] clicks in a row flip the RecordingState [n]
    times, and after the last of one or more clicks the button shows the
    label of the state reached, whatever it showed before; the input is
    never touched. *)
Theorem clicks_flip_and_relabel :
  forall (n : nat) (s : State) (h : SpeechRecognition),
    speechRecognition s = Some h ->
    speaking (run (repeat Click n) s) = xorb (Nat.odd n) (speaking s) /\
    textContent (startButtonTarget (run (repeat Click (S n)) s))
      = label_of (speaking (run (repeat Click (S n)) s)) /\
    inputTarget (run (repeat Click n) s) = inputTarget s.
Proof.
  intros n s h Hh.
  assert (Hstep : forall m,
             speaking (run (repeat Click (S m)) s)
               = negb (speaking (run (repeat Click m) s)) /\
             textContent (startButtonTarget (run (repeat Click (S m)) s))
               = label_of (speaking (run (repeat Click (S m)) s)) /\
             inputTarget (run (repeat Click (S m)) s)
               = inputTarget (run (repeat Click m) s)).
  { intros m. rewrite repeat_snoc, run_snoc.
    destruct (run_keeps_handle (repeat Click m) s h Hh) as [h' Hh'].
    unfold step, perform. rewrite (record_with_handle _ h' Hh').
    destruct (speaking (run (repeat Click m) s)); repeat split. }
  split; [|split].
  - induction n as [|n IH].
    + simpl. now destruct (speaking s).
    + destruct (Hstep n) as [Hsp _]. rewrite Hsp, IH.
      rewrite Nat.odd_succ, <- Nat.negb_odd.
      now destruct (Nat.odd n), (speaking s).
  - apply Hstep.
  - induction n as [|n IH]; [reflexivity|].
    destruct (Hstep n) as [_ [_ Hi]]. now rewrite Hi.
Qed.

Lemma clicks_flip_and_relabel_witness :
  speechRecognition Examples.custom_label = Some (configured 0) /\
  textContent (startButtonTarget Examples.custom_label) = "Record" /\
  speaking (run (repeat Click 3) Examples.custom_label) = Recording /\
  textContent (startButtonTarget (run (repeat Click 3) Examples.custom_label))
    = "Stop Voice Input".
Proof.
  assert (H : speechRecognition Examples.custom_label = Some (configured 0))
    by reflexivity.
  split; [exact H | split; [reflexivity|]].
  destruct (clicks_flip_and_relabel 3 Examples.custom_label _ H) as [Hsp _].
  destruct (clicks_flip_and_relabel 2 Examples.custom_label _ H)
    as [_ [Hl _]].
  split; [exact Hsp|].
  rewrite Hl, Hsp. reflexivity.
Defined.

(** X12. Without an engine handle clicks only report: [n] clicks add [n] error
    lines to the console and change nothing else, so no number of clicks
    starts a recording. *)
Theorem clicks_without_engine_only_report :
  forall (n : nat) (s : State),
    speechRecognition s = None ->
    run (repeat Click n) s
      = with_console (console s ++ repeat not_available n) s.
Proof.
  induction n as [|n IH]; intros s Hh.
  - destruct s; simpl. unfold with_console; simpl. now rewrite app_nil_r.
  - rewrite repeat_snoc, run_snoc, (IH s Hh).
    unfold step, perform. rewrite record_null by exact Hh.
    simpl after_of. unfold with_console; simpl.
    rewrite <- app_assoc. f_equal. f_equal.
    change (not_available :: repeat not_available n)
      with (repeat not_available (S n)).
    now rewrite repeat_snoc.
Qed.

Lemma clicks_without_engine_only_report_witness :
  speechRecognition Examples.unavailable = None /\
  run (repeat Click 2) Examples.unavailable
    = with_console
        (console Examples.unavailable ++ [not_available; not_available])
        Examples.unavailable /\
  speaking (run (repeat Click 2) Examples.unavailable) = Idle.
Proof.
  assert (H : speechRecognition Examples.unavailable = None) by reflexivity.
  split; [exact H|].
  rewrite (clicks_without_engine_only_report 2 Examples.unavailable H).
  split; reflexivity.
Defined.

(** X13. When the engine ends on its own during a recording the controller stays
    Recording, so the next click tells the engine to stop, not to start,
    and sets the button to "Start Voice Input": it takes a second click to
    record again. *)
Theorem click_after_end_stops :
  forall (page : State) (actions : list Action),
    let s := run actions (after_of (connect page)) in
    speaking s = Recording ->
    exists h,
      speechRecognition s = Some h /\
      speaking (run [EngineFires EvEnd] s) = Recording /\
      let s' := run [EngineFires EvEnd; Click] s in
      speaking s' = Idle /\
      speechRecognition s' = Some (called CallStop h) /\
      textContent (startButtonTarget s') = "Start Voice Input".
Proof.
  intros page actions s Hsp.
  destruct (speechRecognition s) as [h|] eqn:Hh.
  - exists h. split; [reflexivity|].
    apply connected_handle in Hh as Hobj.
    assert (Hend : onend h = Some (LogListener "Recording stopped..."))
      by (rewrite <- engine_object_onend, Hobj; reflexivity).
    assert (Hrun : run [EngineFires EvEnd] s
                   = with_console
                       (console s ++ [log_entry "Recording stopped..."]) s).
    { unfold run, step; simpl fold_left. unfold perform, bind, gets.
      rewrite Hh. unfold fire. rewrite Hend. reflexivity. }
    split; [rewrite Hrun; exact Hsp|].
    change (run [EngineFires EvEnd; Click] s)
      with (step (run [EngineFires EvEnd] s) Click).
    rewrite Hrun. unfold step, perform.
    rewrite (record_with_handle _ h) by exact Hh.
    cbn. rewrite Hsp. cbn. repeat split.
  - pose proof (connected_handle_or_idle page actions Hh) as Hidle.
    fold s in Hidle. rewrite Hidle in Hsp. discriminate.
Qed.

Lemma click_after_end_stops_witness :
  speaking Examples.recording = Recording /\
  speaking (run [EngineFires EvEnd] Examples.recording) = Recording /\
  speaking (run [EngineFires EvEnd; Click] Examples.recording) = Idle /\
  engine_calls (run [EngineFires EvEnd; Click] Examples.recording)
    = [CallStart; CallStop].
Proof.
  assert (H : speaking Examples.recording = Recording) by reflexivity.
  split; [exact H|].
  destruct (click_after_end_stops
              (Examples.page Examples.chrome Examples.hello_world
                 "Start Voice Input")
              [Click] H)
    as [h [Hh [Hkeep [Hidle [Hs' _]]]]].
  split; [exact Hkeep | split; [exact Hidle | reflexivity]].
Defined.

End Clicks.

(* ================================================================== *)
(** * Connecting again *)
(* ================================================================== *)

Section Reconnect.

(** X14. [connect] does not look at what the controller already holds.  Called
    on a connected controller in a browser with the capability, whatever
    happened in between, it constructs one more engine and holds that one
    instead: the new handle has another identity and has received no call,
    the flag is reset to Idle, and the button keeps the label it had. *)
Theorem reconnect_replaces_engine :
  forall (page : State) (actions : list Action),
    available page = true ->
    let s := run actions (after_of (connect page)) in
    exists old new s',
      speechRecognition s = Some old /\
      connect s = Returns tt s' /\
      speechRecognition s' = Some new /\
      handle_id new <> handle_id old /\
      calls new = [] /\
      constructed s' = S (constructed s) /\
      speaking s' = Idle /\
      startButtonTarget s' = startButtonTarget s.
Proof.
  intros page actions Hav s.
  destruct (connect_run page) as [s0 [Hrun0 [_ [Hh0 [Hc0 [Hw0 _]]]]]].
  rewrite Hav in Hh0, Hc0.
  destruct (run_preserved actions (after_of (connect page)))
    as (Hw & Hc & _ & _).
  fold s in Hw, Hc. rewrite Hrun0 in Hw, Hc. simpl after_of in Hw, Hc.
  assert (Hold : exists old, speechRecognition s = Some old).
  { unfold s. rewrite Hrun0. simpl after_of.
    exact (run_keeps_handle actions s0 _ Hh0). }
  destruct Hold as [old Hold].
  pose proof (connected_handle page actions old Hold) as Hobj.
  assert (Hid : handle_id old = constructed page).
  { change (handle_id (engine_object old) = constructed page).
    now rewrite Hobj. }
  assert (Havs : available s = true).
  { unfold available in *. now rewrite Hw, Hw0. }
  destruct (connect_run s) as [s' [Hrun [Hsp [Hh [Hcs [_ [_ Hb]]]]]]].
  rewrite Havs in Hh, Hcs.
  exists old, (configured (constructed s)), s'.
  repeat split; try assumption.
  simpl. rewrite Hid, Hc, Hc0. lia.
Qed.

Lemma reconnect_replaces_engine_witness :
  available (Examples.page Examples.chrome Examples.hello_world
               "Start Voice Input") = true /\
  option_map handle_id (speechRecognition Examples.recording) = Some 0 /\
  option_map handle_id
    (speechRecognition (after_of (connect Examples.recording))) = Some 1 /\
  speaking (after_of (connect Examples.recording)) = Idle /\
  textContent (startButtonTarget (after_of (connect Examples.recording)))
    = "Stop Voice Input".
Proof.
  assert (H : available (Examples.page Examples.chrome Examples.hello_world
                           "Start Voice Input") = true) by reflexivity.
  split; [exact H|].
  destruct (reconnect_replaces_engine _ [Click] H)
    as [old [new [s' [Hold [Hrun [Hnew [Hne [Hcalls [Hc [Hsp Hb]]]]]]]]]].
  repeat split.
Defined.

End Reconnect.
